(** * helloAsync: the asynchronous standalone function of node-cpp-skel

    A shallow embedding of [src/standalone_async/hello_async.cpp]:
    the worker [AsyncHelloWorker] ([Execute], [OnOK]) and the entry point
    [helloAsync], over a small model of the host interface the file uses
    (values, argument lists, callback calls, the work queue). *)

From Stdlib Require Import ZArith NArith Strings.Byte Strings.String.
From stdpp Require Import base strings gmap list fin_maps.

Local Open Scope string_scope.

(** ** C++ exceptions and fallible computations *)

(** What a [throw] can carry: an object derived from [std::exception]
    (all that matters of it is [what()]), or any other object. *)
Inductive cpp_exception :=
| std_exception (what : string)
| foreign_exception.

(** The result of evaluating a C++ expression that may throw. *)
Inductive outcome (A : Type) :=
| returned (a : A)
| thrown (e : cpp_exception).
Arguments returned {A} a.
Arguments thrown {A} e.

Definition obind {A B} (m : outcome A) (k : A → outcome B) : outcome B :=
  match m with
  | returned a => k a
  | thrown e => thrown e
  end.

(** [try { body } catch (std::exception const& e) { handler }]: the handler
    takes the exceptions derived from [std::exception]; any other exception
    leaves the block. *)
Definition try_catch_std {A} (body : outcome A) (handler : string → outcome A)
  : outcome A :=
  match body with
  | returned a => returned a
  | thrown (std_exception what) => handler what
  | thrown foreign_exception => thrown foreign_exception
  end.

(** ** The host interface (node-addon-api), as far as the file uses it *)

Module Napi.

Inductive error_class := ErrorClass | TypeErrorClass.

(** What makes an object more than its properties. *)
Inductive internal_slot :=
| Ordinary
| Callable (id : nat)
| BufferData (bytes : list byte)
| ArrayBufferData (bytes : list byte)
| ErrorData (cls : error_class).

(** A JavaScript value as the interface classifies it. A number is kept
    as its 64-bit pattern, a string as its UTF-8 encoding, an object as
    its internal slot and the properties that can be read from it. *)
#[warnings="-register-all"]
Inductive Value :=
| JsUndefined
| JsNull
| JsBoolean (b : bool)
| JsNumber (bits : Z)
| JsString (utf8 : string)
| JsObject (slot : internal_slot) (props : gmap string Value).

Definition IsFunction (v : Value) : bool :=
  match v with
  | JsObject (Callable _) _ => true
  | _ => false
  end.

(** Functions, buffers and errors are objects too. *)
Definition IsObject (v : Value) : bool :=
  match v with
  | JsObject _ _ => true
  | _ => false
  end.

Definition IsBoolean (v : Value) : bool :=
  match v with
  | JsBoolean _ => true
  | _ => false
  end.

(** [v.As<Napi::Object>()], used after [IsObject]. *)
Definition As_Object (v : Value) : gmap string Value :=
  match v with
  | JsObject _ props => props
  | _ => ∅
  end.

(** [v.As<Napi::Boolean>().Value()], used after [IsBoolean]. *)
Definition As_Boolean (v : Value) : bool :=
  match v with
  | JsBoolean b => b
  | _ => false
  end.

Definition Has (options : gmap string Value) (key : string) : bool :=
  bool_decide (is_Some (options !! key)).

Definition Get (options : gmap string Value) (key : string) : Value :=
  default JsUndefined (options !! key).

(** [Napi::CallbackInfo]: the arguments of the call; [info[i]] is
    undefined past the last argument. *)
Definition CallbackInfo := list Value.

Definition arg (info : CallbackInfo) (i : nat) : Value :=
  default JsUndefined (info !! i).

(** *** Bytes to text

    The host reads bytes as UTF-8 and puts U+FFFD in the place of whatever
    is not: one for each byte that cannot start a sequence, and one for
    each sequence that stops short (the byte that stopped it is read
    again, as a first byte). The text is kept as its UTF-8 encoding: the
    well-formed sequences as they are, [EF BF BD] for each U+FFFD. *)

Record utf8_state := {
  needed : nat;            (* continuation bytes still to come *)
  lower : N;               (* the range the next one must be in *)
  upper : N;
  pending : list byte      (* the bytes of the sequence so far *)
}.

Definition utf8_idle : utf8_state :=
  {| needed := 0; lower := 0x80; upper := 0xBF; pending := [] |}.

Definition replacement : list byte := [xef; xbf; xbd]%byte.

Definition between (lo hi : N) (b : byte) : bool :=
  (lo <=? Byte.to_N b)%N && (Byte.to_N b <=? hi)%N.

(** A byte read between two sequences. *)
Definition utf8_first (b : byte) : list byte * utf8_state :=
  if between 0x00 0x7F b then ([b], utf8_idle)
  else if between 0xC2 0xDF b then
    ([], {| needed := 1; lower := 0x80; upper := 0xBF; pending := [b] |})
  else if between 0xE0 0xEF b then
    ([], {| needed := 2;
            lower := if between 0xE0 0xE0 b then 0xA0 else 0x80;
            upper := if between 0xED 0xED b then 0x9F else 0xBF;
            pending := [b] |})
  else if between 0xF0 0xF4 b then
    ([], {| needed := 3;
            lower := if between 0xF0 0xF0 b then 0x90 else 0x80;
            upper := if between 0xF4 0xF4 b then 0x8F else 0xBF;
            pending := [b] |})
  else (replacement, utf8_idle).

Definition utf8_step (st : utf8_state) (b : byte) : list byte * utf8_state :=
  match needed st with
  | 0 => utf8_first b
  | S n =>
      if between (lower st) (upper st) b then
        match n with
        | 0 => ((pending st ++ [b])%list, utf8_idle)
        | S _ => ([], {| needed := n; lower := 0x80; upper := 0xBF;
                         pending := (pending st ++ [b])%list |})
        end
      else ((replacement ++ fst (utf8_first b))%list, snd (utf8_first b))
  end.

Fixpoint utf8_run (st : utf8_state) (bs : list byte) : list byte :=
  match bs with
  | [] => match needed st with 0 => [] | S _ => replacement end
  | b :: bs' =>
      (fst (utf8_step st b) ++ utf8_run (snd (utf8_step st b)) bs')%list
  end.

(** The text the host makes of the bytes of [s]. *)
Definition utf8_text (s : string) : string :=
  string_of_list_byte (utf8_run utf8_idle (list_byte_of_string s)).

(** [Napi::String::New(env, s)]: the text read from the bytes of [s]. *)
Definition String_New (s : string) : Value := JsString (utf8_text s).

Definition Error_New (message : string) : Value :=
  JsObject (ErrorData ErrorClass) {[ "message" := String_New message ]}.

Definition TypeError_New (message : string) : Value :=
  JsObject (ErrorData TypeErrorClass) {[ "message" := String_New message ]}.

(** [Napi::Buffer<char>::Copy(env, data, size)]: a buffer holding a copy
    of the [size] bytes at [data]. Like every typed array it has a
    property [buffer], the array buffer behind it; the other properties of
    a buffer (its length, its indices, its methods) are not listed. *)
Definition Buffer_Copy (data : list byte) (size : nat) : Value :=
  JsObject (BufferData (take size data))
    {[ "buffer" := JsObject (ArrayBufferData (take size data)) ∅ ]}.

(** The bytes a buffer holds. *)
Definition Buffer_bytes (v : Value) : option (list byte) :=
  match v with
  | JsObject (BufferData bytes) _ => Some bytes
  | _ => None
  end.

(** Decoding a buffer as UTF-8 text ([buf.toString()] in the host). *)
Definition Buffer_toString (v : Value) : option string :=
  match v with
  | JsObject (BufferData bytes) _ =>
      Some (string_of_list_byte (utf8_run utf8_idle bytes))
  | _ => None
  end.

(** One call of a JavaScript function made from C++. *)
Record call := mk_call { callee : Value; arguments : list Value }.

(** The error-first callback convention: slot 0 is the error, slot 1 the
    result; a slot is populated when it holds neither null nor
    undefined (an argument that is not passed reads as undefined). *)
Definition populated (v : Value) : bool :=
  match v with
  | JsUndefined | JsNull => false
  | _ => true
  end.

Definition error_slot (c : call) : Value := arg (arguments c) 0.
Definition result_slot (c : call) : Value := arg (arguments c) 1.

(** What a native function hands back to its JavaScript caller: a value
    it made, or whatever a JavaScript function it called returned. *)
Inductive return_value :=
| Val (v : Value)
| ResultOf (c : call).

(** The environment: the JavaScript exception pending in it, and the
    calls made to JavaScript functions so far (oldest first). *)
Record Env := {
  pending_exception : option Value;
  calls : list call
}.

Definition ThrowAsJavaScriptException (e : Value) (env : Env) : Env :=
  {| pending_exception := Some e; calls := calls env |}.

(** [f.Call({args})]. The body of the JavaScript function is not run in
    this model: the call is recorded. *)
Definition Call (f : Value) (args : list Value) (env : Env)
  : return_value * Env :=
  (ResultOf (mk_call f args),
   {| pending_exception := pending_exception env;
      calls := calls env ++ [mk_call f args] |}).

End Napi.

Import Napi.

(** ** The computation ([cpu_intensive_task.hpp]) *)

Module detail.

(** Modelled from the spec: [detail::do_expensive_work], whose header
    [cpu_intensive_task.hpp] is not among the sources. Given a subject
    word and an emphasize flag it produces a phrase saying that
    asynchronous processing occurred, followed by a greeting of the
    subject, and suffixed with several exclamation marks when the flag is
    set. The wording is the one of the example in the documentation
    comment of [helloAsync]; the spec leaves the unemphasised ending open
    (a period or nothing) and nothing is appended here. *)
Definition do_expensive_work (name : string) (louder : bool)
  : outcome string :=
  let result := "...threads are busy async bees...hello " ++ name in
  if louder then returned (result ++ "!!!!") else returned result.

End detail.

(** ** Reporting an error through the callback ([module_utils.hpp]) *)

Module utils.

(** Modelled from the spec: [utils::CallbackError], whose header
    [module_utils.hpp] is not among the sources. The callback of the
    invocation (its second argument, which [helloAsync] has checked to be
    a function) is invoked at once with a non-null error carrying the
    message and with no result; what the callback returns is handed
    back. *)
Definition CallbackError (message : string) (info : CallbackInfo)
  (env : Env) : return_value * Env :=
  let obj := JsObject Ordinary {[ "message" := JsString message ]} in
  let func := arg info 1 in
  Call func [obj] env.

End utils.

(** ** The worker and the entry point *)

Module standalone_async.

(** [struct AsyncHelloWorker : Napi::AsyncWorker]. The first two fields
    are the part of the base class the file relies on: the callback
    given to [Base(cb)] and the error set by [SetError]. [result_] is a
    [std::unique_ptr<std::string>]: [None] is the null pointer. *)
Record AsyncHelloWorker := {
  callback : Value;
  error : option string;
  result_ : option string;
  louder_ : bool;
  buffer_ : bool
}.

(** The constructor, with the default member initializer
    [result_ = std::make_unique<std::string>()]. *)
Definition ctor (louder buffer : bool) (cb : Value) : AsyncHelloWorker :=
  {| callback := cb;
     error := None;
     result_ := Some EmptyString;
     louder_ := louder;
     buffer_ := buffer |}.

Definition SetError (message : string) (w : AsyncHelloWorker)
  : AsyncHelloWorker :=
  {| callback := callback w;
     error := Some message;
     result_ := result_ w;
     louder_ := louder_ w;
     buffer_ := buffer_ w |}.

Definition set_result (r : option string) (w : AsyncHelloWorker)
  : AsyncHelloWorker :=
  {| callback := callback w;
     error := error w;
     result_ := r;
     louder_ := louder_ w;
     buffer_ := buffer_ w |}.

(** The host: its environment, and the workers queued and not yet run. *)
Record host := {
  env : Env;
  work_queue : list AsyncHelloWorker
}.

Definition with_env (f : Env → Env) (h : host) : host :=
  {| env := f (env h); work_queue := work_queue h |}.

(** [worker->Queue()]. *)
Definition Queue (w : AsyncHelloWorker) (h : host) : host :=
  {| env := env h; work_queue := work_queue h ++ [w] |}.

(** How a run of the process stands: still running in some host state,
    or stopped for good. *)
Inductive stop_reason :=
| uncaught_exception (e : cpp_exception)
| null_dereference.

Inductive process :=
| Running (h : host)
| Stopped (why : stop_reason).

Section Worker.

(** The computation run by the worker: [detail::do_expensive_work], or
    anything else of its type. *)
Variable do_expensive_work : string → bool → outcome string.

(** [void Execute() final], on the worker thread. *)
Definition Execute (w : AsyncHelloWorker) : outcome AsyncHelloWorker :=
  try_catch_std
    (obind (do_expensive_work "world" (louder_ w))
           (λ r, returned (set_result (Some r) w)))
    (λ what, returned (SetError what w)).

(** [void OnOK() final], back on the main thread. Dereferencing a null
    [result_] has no defined behaviour. *)
Definition OnOK (w : AsyncHelloWorker) (h : host) : process :=
  match result_ w with
  | None => Stopped null_dereference
  | Some result =>
      if buffer_ w then
        Running (with_env
          (λ e, snd (Call (callback w)
                       [JsNull;
                        Buffer_Copy (list_byte_of_string result)
                                    (String.length result)] e)) h)
      else
        Running (with_env
          (λ e, snd (Call (callback w) [JsNull; String_New result] e)) h)
  end.

(** Modelled from the spec: the completion step of the base class
    [Napi::AsyncWorker], which is not among the sources. If the error
    is populated the callback is invoked with [(errorValue, null)],
    the error value carrying the failure message. *)
Definition OnError (message : string) (w : AsyncHelloWorker) (h : host)
  : process :=
  Running (with_env
    (λ e, snd (Call (callback w) [Error_New message; JsNull] e)) h).

(** Modelled from the spec: completion, run by the host scheduler once
    [Execute] has finished: [OnError] if the error is populated, else
    [OnOK] (which "is not getting called" once [Execute] has set an
    error). *)
Definition OnWorkComplete (w : AsyncHelloWorker) (h : host) : process :=
  match error w with
  | Some message => OnError message w h
  | None => OnOK w h
  end.

(** Modelled from the spec: the life of one queued worker. [Execute]
    strictly precedes completion; an exception that leaves [Execute]
    on the worker thread is a fatal process condition. *)
Definition run_task (w : AsyncHelloWorker) (h : host) : process :=
  match Execute w with
  | returned w' => OnWorkComplete w' h
  | thrown e => Stopped (uncaught_exception e)
  end.

(** One schedule of the host: the queued workers run to completion one
    after the other, oldest first. The host promises no such order (tasks
    complete as they finish); nothing stated below about a single task, or
    about [helloAsync], depends on it. *)
Fixpoint run_tasks (ws : list AsyncHelloWorker) (h : host) : process :=
  match ws with
  | [] => Running h
  | w :: ws' =>
      match run_task w h with
      | Running h' => run_tasks ws' h'
      | Stopped why => Stopped why
      end
  end.

Definition run_queue (h : host) : process :=
  run_tasks (work_queue h) {| env := env h; work_queue := [] |}.

End Worker.

(** *** The body of a native function: host state and early [return] *)

Inductive step (A : Type) :=
| Next (a : A) (h : host)
| Return (v : return_value) (h : host).
Arguments Next {A} a h.
Arguments Return {A} v h.

Definition body (A : Type) : Type := host → step A.

#[global] Instance body_ret : MRet body := λ A a h, Next a h.

#[global] Instance body_bind : MBind body := λ A B k m h,
  match m h with
  | Next a h' => k a h'
  | Return v h' => Return v h'
  end.

(** [return v;] *)
Definition return_ {A} (v : return_value) : body A := λ h, Return v h.

(** [return f(...);] for an [f] that acts on the environment. *)
Definition return_from {A} (f : Env → return_value * Env) : body A :=
  λ h, Return (fst (f (env h))) (with_env (λ e, snd (f e)) h).

(** A statement that only acts on the host. *)
Definition effect (f : host → host) : body unit := λ h, Next () (f h).

(** [if (c) { ... }] *)
Definition when (c : bool) (b : body unit) : body unit :=
  if c then b else mret ().

Definition run (b : body return_value) (h : host) : return_value * host :=
  match b h with
  | Next v h' => (v, h')
  | Return v h' => (v, h')
  end.

(** [Napi::Value helloAsync(Napi::CallbackInfo const& info)] *)
Definition helloAsync (info : CallbackInfo) (h : host)
  : return_value * host :=
  run (
    let louder := false in
    let buffer := false in
    when (negb (IsFunction (arg info 1)))
      (effect (with_env (ThrowAsJavaScriptException
         (TypeError_New "second arg 'callback' must be a function")));;
       return_ (Val JsNull));;
    let callback := arg info 1 in
    when (negb (IsObject (arg info 0)))
      (return_from
         (utils.CallbackError "first arg 'options' must be an object" info));;
    let options := As_Object (arg info 0) in
    louder ←
      (if Has options "louder" then
         let louder_val := Get options "louder" in
         when (negb (IsBoolean louder_val))
           (return_from
              (utils.CallbackError "option 'louder' must be a boolean" info));;
         mret (As_Boolean louder_val)
       else mret louder);
    buffer ←
      (if Has options "buffer" then
         let buffer_val := Get options "buffer" in
         when (negb (IsBoolean buffer_val))
           (return_from
              (utils.CallbackError "option 'buffer' must be a boolean" info));;
         mret (As_Boolean buffer_val)
       else mret buffer);
    let worker := ctor louder buffer callback in
    effect (Queue worker);;
    return_ (Val JsUndefined)
  ) h.

End standalone_async.

Import standalone_async.

(** ** Notions used in the statements *)

(** The spec's view of the two output fields of a task. The error is
    populated once [SetError] has run. The result is populated when the
    owned string holds at least one byte: a task is built owning an empty
    string, which stands for the result that is not there yet. *)
Definition error_populated (w : AsyncHelloWorker) : bool :=
  match error w with
  | Some _ => true
  | None => false
  end.

Definition result_populated (w : AsyncHelloWorker) : bool :=
  match result_ w with
  | Some s => negb (String.eqb s EmptyString)
  | None => false
  end.

(** A string of 7-bit characters only. *)
Definition is_ascii (s : string) : bool :=
  forallb (between 0x00 0x7F) (list_byte_of_string s).

(** The host after one more call [c] of a JavaScript function, everything
    else unchanged. *)
Definition invoked (c : call) (h : host) : host :=
  {| env := {| pending_exception := pending_exception (env h);
               calls := calls (env h) ++ [c] |};
     work_queue := work_queue h |}.

(** The value an error carries to the callback: an object whose [message]
    is the text. *)
Definition carries (v : Value) (message : string) : Prop :=
  ∃ slot props, v = JsObject slot props ∧ props !! "message" = Some (JsString message).

(** A recognized option: absent (the default, [false]), a boolean, or
    something else (refused). *)
Definition read_flag (options : gmap string Value) (key : string)
  : option bool :=
  match options !! key with
  | None => Some false
  | Some (JsBoolean b) => Some b
  | Some _ => None
  end.

(** Malformed invocations, in the words of the spec: the callback is not
    invocable, the options argument is not an object, or a recognized
    field is present but not boolean-typed. *)
Definition malformed (info : CallbackInfo) : bool :=
  negb (IsFunction (arg info 1))
  || negb (IsObject (arg info 0))
  || negb (bool_decide (is_Some (read_flag (As_Object (arg info 0)) "louder")))
  || negb (bool_decide (is_Some (read_flag (As_Object (arg info 0)) "buffer"))).

(** [return utils::CallbackError(message, info);] seen from the host. *)
Definition callback_error (message : string) (info : CallbackInfo) (h : host)
  : return_value * host :=
  (fst (utils.CallbackError message info (env h)),
   with_env (λ e, snd (utils.CallbackError message info e)) h).

(** ** Basic facts *)

Lemma length_list_byte_of_string (s : string) :
  length (list_byte_of_string s) = String.length s.
Proof. induction s as [|a s IH]; simpl; [reflexivity | f_equal; exact IH]. Qed.

Lemma Buffer_Copy_whole (s : string) :
  Buffer_bytes (Buffer_Copy (list_byte_of_string s) (String.length s))
  = Some (list_byte_of_string s).
Proof.
  unfold Buffer_Copy. cbn. rewrite take_ge; [reflexivity|].
  rewrite length_list_byte_of_string. lia.
Qed.

Lemma Buffer_toString_Copy (s : string) :
  Buffer_toString (Buffer_Copy (list_byte_of_string s) (String.length s))
  = Some (utf8_text s).
Proof.
  unfold Buffer_Copy, utf8_text. cbn. rewrite take_ge; [reflexivity|].
  rewrite length_list_byte_of_string. lia.
Qed.

(** 7-bit bytes are text as they are. *)
Lemma utf8_run_ascii (bs : list byte) :
  forallb (between 0x00 0x7F) bs = true →
  utf8_run utf8_idle bs = bs.
Proof.
  induction bs as [|b bs IH]; cbn [forallb utf8_run]; [reflexivity|].
  intros H. apply andb_prop in H as [Hb Hbs].
  unfold utf8_step. cbn [needed utf8_idle]. unfold utf8_first. rewrite Hb.
  cbn [fst snd]. now rewrite (IH Hbs).
Qed.

Lemma utf8_text_ascii (s : string) :
  is_ascii s = true → utf8_text s = s.
Proof.
  intros H. unfold utf8_text. rewrite (utf8_run_ascii _ H).
  apply string_of_list_byte_of_string.
Qed.

(** Well-formed sequences pass; what is not UTF-8 becomes U+FFFD. *)
Example utf8_two_bytes :
  utf8_run utf8_idle [xc3; xa9]%byte = [xc3; xa9]%byte.
Proof. reflexivity. Qed.

Example utf8_four_bytes :
  utf8_run utf8_idle [xf0; x9f; x98; x80]%byte = [xf0; x9f; x98; x80]%byte.
Proof. reflexivity. Qed.

Example utf8_stray_byte :
  utf8_run utf8_idle [x68; xff; x69]%byte
  = [x68; xef; xbf; xbd; x69]%byte.
Proof. reflexivity. Qed.

Example utf8_cut_short :
  utf8_run utf8_idle [xe2; x82; x41]%byte = [xef; xbf; xbd; x41]%byte.
Proof. reflexivity. Qed.

Example utf8_surrogate :
  utf8_run utf8_idle [xed; xa0; x80]%byte
  = (replacement ++ replacement ++ replacement)%list.
Proof. reflexivity. Qed.

Example String_New_not_utf8 :
  String_New (string_of_list_byte [x68; xff]%byte)
  = JsString (string_of_list_byte [x68; xef; xbf; xbd]%byte).
Proof. reflexivity. Qed.

Lemma callback_error_invoked message info h :
  callback_error message info h
  = (ResultOf (mk_call (arg info 1)
                 [JsObject Ordinary {[ "message" := JsString message ]}]),
     invoked (mk_call (arg info 1)
                [JsObject Ordinary {[ "message" := JsString message ]}]) h).
Proof. reflexivity. Qed.

Section WorkerFacts.

Variable work : string → bool → outcome string.

Lemma Execute_returned w s :
  work "world" (louder_ w) = returned s →
  Execute work w = returned (set_result (Some s) w).
Proof. intros H. unfold Execute. now rewrite H. Qed.

Lemma Execute_caught w what :
  work "world" (louder_ w) = thrown (std_exception what) →
  Execute work w = returned (SetError what w).
Proof. intros H. unfold Execute. now rewrite H. Qed.

Lemma Execute_escapes w :
  work "world" (louder_ w) = thrown foreign_exception →
  Execute work w = thrown foreign_exception.
Proof. intros H. unfold Execute. now rewrite H. Qed.

Lemma OnOK_invoked w h s :
  result_ w = Some s →
  OnOK w h
  = Running (invoked (mk_call (callback w)
               [JsNull;
                if buffer_ w
                then Buffer_Copy (list_byte_of_string s) (String.length s)
                else String_New s]) h).
Proof.
  intros H. unfold OnOK. rewrite H.
  destruct (buffer_ w); reflexivity.
Qed.

End WorkerFacts.

(** The body of [helloAsync] as a decision tree. *)
Lemma helloAsync_cases info h :
  helloAsync info h =
  if IsFunction (arg info 1) then
    if IsObject (arg info 0) then
      match read_flag (As_Object (arg info 0)) "louder" with
      | None => callback_error "option 'louder' must be a boolean" info h
      | Some louder =>
          match read_flag (As_Object (arg info 0)) "buffer" with
          | None => callback_error "option 'buffer' must be a boolean" info h
          | Some buffer =>
              (Val JsUndefined, Queue (ctor louder buffer (arg info 1)) h)
          end
      end
    else callback_error "first arg 'options' must be an object" info h
  else
    (Val JsNull,
     with_env (ThrowAsJavaScriptException
       (TypeError_New "second arg 'callback' must be a function")) h).
Proof.
  unfold helloAsync, run, read_flag, Has, Get.
  destruct (IsFunction (arg info 1)); [|reflexivity].
  destruct (IsObject (arg info 0)); [|reflexivity].
  cbn.
  destruct (As_Object (arg info 0) !! "louder") as [[]|] eqn:El;
    destruct (As_Object (arg info 0) !! "buffer") as [[]|] eqn:Eb;
    cbn; try reflexivity.
Qed.

(** Two invocations that look the same to [helloAsync]: the same second
    argument, first arguments that are both objects or both not, with the
    same recognized fields. *)
Lemma helloAsync_agree info info' h :
  arg info 1 = arg info' 1 →
  IsObject (arg info 0) = IsObject (arg info' 0) →
  As_Object (arg info 0) !! "louder" = As_Object (arg info' 0) !! "louder" →
  As_Object (arg info 0) !! "buffer" = As_Object (arg info' 0) !! "buffer" →
  helloAsync info h = helloAsync info' h.
Proof.
  intros Hcb Hobj Hl Hb. rewrite !helloAsync_cases.
  unfold read_flag, callback_error, utils.CallbackError.
  rewrite Hcb, Hobj, Hl, Hb. reflexivity.
Qed.

Lemma malformed_agree info info' :
  arg info 1 = arg info' 1 →
  IsObject (arg info 0) = IsObject (arg info' 0) →
  As_Object (arg info 0) !! "louder" = As_Object (arg info' 0) !! "louder" →
  As_Object (arg info 0) !! "buffer" = As_Object (arg info' 0) !! "buffer" →
  malformed info = malformed info'.
Proof.
  intros Hcb Hobj Hl Hb. unfold malformed, read_flag.
  rewrite Hcb, Hobj, Hl, Hb. reflexivity.
Qed.

(** What is left of [malformed] once the two arguments have the right
    kinds. *)
Lemma malformed_flags info :
  IsFunction (arg info 1) = true →
  IsObject (arg info 0) = true →
  malformed info = false →
  ∃ louder buffer,
    read_flag (As_Object (arg info 0)) "louder" = Some louder
    ∧ read_flag (As_Object (arg info 0)) "buffer" = Some buffer.
Proof.
  intros Hf Ho. unfold malformed. rewrite Hf, Ho. cbn.
  destruct (read_flag _ "louder") as [l|]; [|discriminate].
  destruct (read_flag _ "buffer") as [b|]; [|discriminate].
  eauto.
Qed.

Lemma carries_message message :
  carries (JsObject Ordinary {[ "message" := JsString message ]}) message.
Proof. eexists _, _. split; [reflexivity|]. apply lookup_singleton_eq. Qed.

(** ** The entry point: validation *)

(** C9. The callback is validated before the options: whenever the second
    argument is not a function, [helloAsync] throws the TypeError, returns
    null, calls nothing and queues nothing, and what the first argument is
    makes no difference, be it malformed too. *)
Theorem callback_checked_first (info : CallbackInfo) (h : host) :
  IsFunction (arg info 1) = false →
  helloAsync info h
  = (Val JsNull,
     {| env := {| pending_exception :=
                    Some (TypeError_New "second arg 'callback' must be a function");
                  calls := calls (env h) |};
        work_queue := work_queue h |})
  ∧ (∀ info' : CallbackInfo,
       arg info' 1 = arg info 1 → helloAsync info' h = helloAsync info h).
Proof.
  intros Hf. split.
  - rewrite helloAsync_cases, Hf. reflexivity.
  - intros info' Hsame. rewrite !helloAsync_cases, Hsame, Hf. reflexivity.
Qed.

Lemma callback_checked_first_witness :
  IsFunction (arg [JsString "loud"; JsNumber 7] 1) = false
  ∧ fst (helloAsync [JsString "loud"; JsNumber 7]
           {| env := {| pending_exception := None; calls := [] |};
              work_queue := [] |}) = Val JsNull.
Proof.
  split; [reflexivity|].
  rewrite (proj1 (callback_checked_first [JsString "loud"; JsNumber 7]
    {| env := {| pending_exception := None; calls := [] |}; work_queue := [] |}
    eq_refl)).
  reflexivity.
Defined.

(** C5. When the first argument is not an object and the callback is a
    function, the callback is invoked within the call of [helloAsync]
    itself, exactly once, with a non-null error (carrying the message) and
    no result; nothing is thrown and no task is queued. *)
Theorem options_not_object_calls_back (info : CallbackInfo) (h : host) :
  IsFunction (arg info 1) = true →
  IsObject (arg info 0) = false →
  ∃ c err,
    helloAsync info h = (ResultOf c, invoked c h)
    ∧ callee c = arg info 1
    ∧ arguments c = [err]
    ∧ carries err "first arg 'options' must be an object"
    ∧ populated (error_slot c) = true
    ∧ populated (result_slot c) = false
    ∧ calls (env (snd (helloAsync info h))) = (calls (env h) ++ [c])%list
    ∧ pending_exception (env (snd (helloAsync info h)))
      = pending_exception (env h)
    ∧ work_queue (snd (helloAsync info h)) = work_queue h.
Proof.
  intros Hf Ho. rewrite helloAsync_cases, Hf, Ho, callback_error_invoked.
  eexists _, _. split; [reflexivity|].
  repeat split; try reflexivity. apply carries_message.
Qed.

Lemma options_not_object_calls_back_witness :
  ∃ c,
    calls (env (snd (helloAsync [JsNumber 1; JsObject (Callable 0) ∅]
      {| env := {| pending_exception := None; calls := [] |};
         work_queue := [] |}))) = [c]
    ∧ populated (error_slot c) = true.
Proof.
  destruct (options_not_object_calls_back
              [JsNumber 1; JsObject (Callable 0) ∅]
              {| env := {| pending_exception := None; calls := [] |};
                 work_queue := [] |} eq_refl eq_refl)
    as (c & err & _ & _ & _ & _ & Hpop & _ & Hcalls & _).
  exists c. split; [exact Hcalls | exact Hpop].
Defined.

(** C4, as the spec words it, fails: a malformed invocation whose callback
    is a function is not answered by throwing. Here the options argument is
    a number: no exception is pending afterwards, and the error has gone to
    the callback. *)
Lemma validation_error_not_thrown :
  let info := [JsNumber 1; JsObject (Callable 0) ∅] in
  let h := {| env := {| pending_exception := None; calls := [] |};
              work_queue := [] |} in
  malformed info = true
  ∧ pending_exception (env (snd (helloAsync info h))) = None
  ∧ calls (env (snd (helloAsync info h)))
    = [mk_call (JsObject (Callable 0) ∅)
         [JsObject Ordinary
            {[ "message" := JsString "first arg 'options' must be an object" ]}]].
Proof. cbv zeta. rewrite helloAsync_cases. repeat split; reflexivity. Qed.

(** C4, amended. Every malformed invocation is answered within the call of
    [helloAsync], before any task is built: nothing is queued. When the
    callback is not a function the TypeError is thrown and nothing is
    called; otherwise nothing is thrown and the callback is invoked at
    once, exactly once, with an error carrying a message as its only
    argument. *)
Theorem validation_before_any_task (info : CallbackInfo) (h : host) :
  malformed info = true →
  work_queue (snd (helloAsync info h)) = work_queue h
  ∧ ((IsFunction (arg info 1) = false
      ∧ helloAsync info h
        = (Val JsNull,
           {| env := {| pending_exception :=
                          Some (TypeError_New
                                  "second arg 'callback' must be a function");
                        calls := calls (env h) |};
              work_queue := work_queue h |}))
     ∨ (IsFunction (arg info 1) = true
        ∧ ∃ c err message,
            helloAsync info h = (ResultOf c, invoked c h)
            ∧ callee c = arg info 1
            ∧ arguments c = [err]
            ∧ carries err message)).
Proof.
  intros Hbad. rewrite helloAsync_cases.
  assert (Hcb : ∀ message,
    work_queue (snd (callback_error message info h)) = work_queue h
    ∧ ∃ c err message',
        callback_error message info h = (ResultOf c, invoked c h)
        ∧ callee c = arg info 1 ∧ arguments c = [err] ∧ carries err message').
  { intros message. rewrite callback_error_invoked. split; [reflexivity|].
    eexists _, _, message. repeat split. apply carries_message. }
  destruct (IsFunction (arg info 1)) eqn:Hf.
  - destruct (IsObject (arg info 0)) eqn:Ho.
    + unfold malformed in Hbad. rewrite Hf, Ho in Hbad. cbn in Hbad.
      destruct (read_flag _ "louder") as [l|].
      * destruct (read_flag _ "buffer") as [b|].
        -- exfalso. cbn in Hbad. discriminate.
        -- destruct (Hcb "option 'buffer' must be a boolean") as [Hq Hc].
           split; [exact Hq|]. right. split; [reflexivity | exact Hc].
      * destruct (Hcb "option 'louder' must be a boolean") as [Hq Hc].
        split; [exact Hq|]. right. split; [reflexivity | exact Hc].
    + destruct (Hcb "first arg 'options' must be an object") as [Hq Hc].
      split; [exact Hq|]. right. split; [reflexivity | exact Hc].
  - split; [reflexivity|]. left. split; reflexivity.
Qed.

Lemma validation_before_any_task_witness :
  malformed [JsObject Ordinary {[ "louder" := JsString "yes" ]};
             JsObject (Callable 0) ∅] = true
  ∧ work_queue (snd (helloAsync
      [JsObject Ordinary {[ "louder" := JsString "yes" ]};
       JsObject (Callable 0) ∅]
      {| env := {| pending_exception := None; calls := [] |};
         work_queue := [] |})) = [].
Proof.
  assert (Hbad : malformed [JsObject Ordinary {[ "louder" := JsString "yes" ]};
                            JsObject (Callable 0) ∅] = true)
    by (vm_compute; reflexivity).
  split; [exact Hbad|].
  exact (proj1 (validation_before_any_task _
    {| env := {| pending_exception := None; calls := [] |}; work_queue := [] |}
    Hbad)).
Defined.

(** A well-formed invocation queues one task and does nothing else. *)
Lemma helloAsync_well_formed info h :
  malformed info = false →
  ∃ louder buffer,
    helloAsync info h
    = (Val JsUndefined, Queue (ctor louder buffer (arg info 1)) h)
    ∧ read_flag (As_Object (arg info 0)) "louder" = Some louder
    ∧ read_flag (As_Object (arg info 0)) "buffer" = Some buffer.
Proof.
  intros Hok.
  assert (Hf : IsFunction (arg info 1) = true).
  { unfold malformed in Hok. destruct (IsFunction (arg info 1)); [reflexivity|].
    discriminate. }
  assert (Ho : IsObject (arg info 0) = true).
  { unfold malformed in Hok. rewrite Hf in Hok.
    destruct (IsObject (arg info 0)); [reflexivity | discriminate]. }
  destruct (malformed_flags info Hf Ho Hok) as (l & b & Hl & Hb).
  rewrite helloAsync_cases, Hf, Ho, Hl, Hb. eauto.
Qed.

(** ** The entry point: the flags *)

(** C6. A well-formed invocation queues one task, bound to the callback,
    whose flags come from the options: [louder_] (emphasize) is [false]
    when the field [louder] is absent, and [buffer_] (asBytes) is [false]
    when the field [buffer] is absent; a field that is present, a boolean,
    gives its value to the flag. *)
Theorem flags_default_false (info : CallbackInfo) (h : host) :
  malformed info = false →
  ∃ w,
    helloAsync info h = (Val JsUndefined, Queue w h)
    ∧ w = ctor (louder_ w) (buffer_ w) (arg info 1)
    ∧ (As_Object (arg info 0) !! "louder" = None → louder_ w = false)
    ∧ (As_Object (arg info 0) !! "buffer" = None → buffer_ w = false)
    ∧ (∀ b, As_Object (arg info 0) !! "louder" = Some (JsBoolean b) →
            louder_ w = b)
    ∧ (∀ b, As_Object (arg info 0) !! "buffer" = Some (JsBoolean b) →
            buffer_ w = b).
Proof.
  intros Hok.
  destruct (helloAsync_well_formed info h Hok) as (l & b & Hrun & Hl & Hb).
  rewrite Hrun.
  exists (ctor l b (arg info 1)). split; [reflexivity|]. split; [reflexivity|].
  unfold read_flag in Hl, Hb. cbn.
  repeat split.
  - intros E. rewrite E in Hl. congruence.
  - intros E. rewrite E in Hb. congruence.
  - intros b' E. rewrite E in Hl. congruence.
  - intros b' E. rewrite E in Hb. congruence.
Qed.

Lemma flags_default_false_witness :
  ∃ w,
    work_queue (snd (helloAsync
      [JsObject Ordinary {[ "buffer" := JsBoolean true ]};
       JsObject (Callable 0) ∅]
      {| env := {| pending_exception := None; calls := [] |};
         work_queue := [] |})) = [w]
    ∧ louder_ w = false ∧ buffer_ w = true.
Proof.
  assert (Hok : malformed [JsObject Ordinary {[ "buffer" := JsBoolean true ]};
                           JsObject (Callable 0) ∅] = false)
    by (vm_compute; reflexivity).
  destruct (flags_default_false _
    {| env := {| pending_exception := None; calls := [] |}; work_queue := [] |}
    Hok) as (w & Hrun & _ & Hl & _ & _ & Hb).
  exists w. rewrite Hrun. split; [reflexivity|]. split.
  - apply Hl. vm_compute. reflexivity.
  - apply Hb. vm_compute. reflexivity.
Defined.

(** C10. Fields other than [louder] and [buffer] are ignored: adding such
    a field to the options, or removing it, changes neither whether the
    invocation is malformed, nor what [helloAsync] does (so neither the
    flags of the queued task), nor what running the queue delivers. *)
Theorem unrecognized_fields_ignored
    (work : string → bool → outcome string)
    (slot : internal_slot) (props : gmap string Value)
    (key : string) (v : Value) (rest : list Value) (h : host) :
  key ≠ "louder" → key ≠ "buffer" →
  let plain := JsObject slot props :: rest in
  let more := JsObject slot (<[key := v]> props) :: rest in
  let less := JsObject slot (delete key props) :: rest in
  (malformed more = malformed plain ∧ malformed less = malformed plain)
  ∧ (helloAsync more h = helloAsync plain h
     ∧ helloAsync less h = helloAsync plain h)
  ∧ (run_queue work (snd (helloAsync more h))
     = run_queue work (snd (helloAsync plain h))
     ∧ run_queue work (snd (helloAsync less h))
       = run_queue work (snd (helloAsync plain h))).
Proof.
  intros Hl Hb plain more less.
  assert (Hmore : helloAsync more h = helloAsync plain h).
  { apply helloAsync_agree; try reflexivity; cbn.
    - now rewrite lookup_insert_ne.
    - now rewrite lookup_insert_ne. }
  assert (Hless : helloAsync less h = helloAsync plain h).
  { apply helloAsync_agree; try reflexivity; cbn.
    - now rewrite lookup_delete_ne.
    - now rewrite lookup_delete_ne. }
  split; [split|split; [split; assumption|]].
  - apply malformed_agree; try reflexivity; cbn; now rewrite lookup_insert_ne.
  - apply malformed_agree; try reflexivity; cbn; now rewrite lookup_delete_ne.
  - rewrite Hmore, Hless. split; reflexivity.
Qed.

Lemma unrecognized_fields_ignored_witness :
  "colour" ≠ "louder" ∧ "colour" ≠ "buffer"
  ∧ helloAsync
      [JsObject Ordinary (<["colour" := JsNumber 3]> {[ "louder" := JsBoolean true ]});
       JsObject (Callable 0) ∅]
      {| env := {| pending_exception := None; calls := [] |}; work_queue := [] |}
    = helloAsync
        [JsObject Ordinary {[ "louder" := JsBoolean true ]};
         JsObject (Callable 0) ∅]
        {| env := {| pending_exception := None; calls := [] |}; work_queue := [] |}.
Proof.
  assert (H1 : "colour" ≠ "louder") by discriminate.
  assert (H2 : "colour" ≠ "buffer") by discriminate.
  split; [exact H1|]. split; [exact H2|].
  exact (proj1 (proj1 (proj2 (unrecognized_fields_ignored
    detail.do_expensive_work Ordinary {[ "louder" := JsBoolean true ]}
    "colour" (JsNumber 3) [JsObject (Callable 0) ∅]
    {| env := {| pending_exception := None; calls := [] |}; work_queue := [] |}
    H1 H2)))).
Defined.

(** ** The worker *)

Section WorkerProperties.

Variable work : string → bool → outcome string.

(** What [Execute] leaves in the task, case by case. *)
Lemma Execute_ctor_returned louder buffer cb s :
  work "world" louder = returned s →
  Execute work (ctor louder buffer cb)
  = returned {| callback := cb; error := None; result_ := Some s;
                louder_ := louder; buffer_ := buffer |}.
Proof. intros H. now rewrite (Execute_returned work _ s). Qed.

Lemma Execute_ctor_caught louder buffer cb what :
  work "world" louder = thrown (std_exception what) →
  Execute work (ctor louder buffer cb)
  = returned {| callback := cb; error := Some what; result_ := Some EmptyString;
                louder_ := louder; buffer_ := buffer |}.
Proof. intros H. now rewrite (Execute_caught work _ what). Qed.

(** A task that [Execute] has finished is completed by one call of its
    callback, provided it owns a string. *)
Lemma OnWorkComplete_once w h :
  is_Some (result_ w) →
  ∃ c, OnWorkComplete w h = Running (invoked c h) ∧ callee c = callback w.
Proof.
  intros [s Hs]. unfold OnWorkComplete. destruct (error w) as [message|].
  - eexists. split; reflexivity.
  - rewrite (OnOK_invoked w h s Hs). eexists. split; reflexivity.
Qed.

Lemma Execute_keeps w w' :
  Execute work w = returned w' →
  callback w' = callback w ∧ (is_Some (result_ w) → is_Some (result_ w')).
Proof.
  unfold Execute. destruct (work "world" (louder_ w)) as [s|[what|]]; cbn;
    intros H; inversion H; subst; cbn; eauto.
Qed.

Lemma run_task_returned louder buffer cb h s :
  work "world" louder = returned s →
  run_task work (ctor louder buffer cb) h
  = Running (invoked (mk_call cb
               [JsNull;
                if buffer
                then Buffer_Copy (list_byte_of_string s) (String.length s)
                else String_New s]) h).
Proof.
  intros Hs. unfold run_task. rewrite (Execute_ctor_returned _ _ _ s Hs).
  unfold OnWorkComplete. cbn [error].
  now rewrite (OnOK_invoked
    {| callback := cb; error := None; result_ := Some s;
       louder_ := louder; buffer_ := buffer |} h s eq_refl).
Qed.

Lemma run_task_caught louder buffer cb h what :
  work "world" louder = thrown (std_exception what) →
  run_task work (ctor louder buffer cb) h
  = Running (invoked (mk_call cb [Error_New what; JsNull]) h).
Proof.
  intros Hw. unfold run_task. now rewrite (Execute_ctor_caught _ _ _ what Hw).
Qed.

(** Several tasks, run one after the other: as long as the computation
    raises nothing but [std::exception]s, every task gets exactly one
    call of its own callback, in the order of the queue. *)
Lemma run_tasks_one_call_each ws : ∀ h,
  (∀ louder, work "world" louder ≠ thrown foreign_exception) →
  Forall (λ w, is_Some (result_ w)) ws →
  ∃ h' cs,
    run_tasks work ws h = Running h'
    ∧ calls (env h') = (calls (env h) ++ cs)%list
    ∧ map callee cs = map callback ws
    ∧ work_queue h' = work_queue h.
Proof.
  induction ws as [|w ws IH]; intros h Hstd Hown.
  - exists h, []. cbn. rewrite app_nil_r. auto.
  - apply Forall_cons in Hown as [Hw Hws]. cbn. unfold run_task.
    destruct (Execute work w) as [w'|e] eqn:Hex.
    + destruct (Execute_keeps w w' Hex) as [Hcb Hres].
      destruct (OnWorkComplete_once w' h (Hres Hw)) as (c & Hc & Hcallee).
      rewrite Hc. destruct (IH (invoked c h) Hstd Hws) as (h' & cs & Hrun & Hcalls & Hmap & Hq).
      exists h', (c :: cs). split; [exact Hrun|]. split; [|split].
      * rewrite Hcalls. cbn. now rewrite <- app_assoc.
      * cbn. now rewrite Hcallee, Hcb, Hmap.
      * exact Hq.
    + exfalso. unfold Execute in Hex.
      destruct (work "world" (louder_ w)) as [s|[what|]] eqn:Hw'; cbn in Hex;
        try discriminate. exact (Hstd _ Hw').
Qed.

End WorkerProperties.

(** The program as it is, with the computation of [cpu_intensive_task.hpp]:
    whatever the flags, the task ends in one call of its callback, with a
    null error and the phrase, as text or as bytes. *)
Lemma hello_world_task_calls_back (louder buffer : bool) (cb : Value) (h : host) :
  ∃ s,
    detail.do_expensive_work "world" louder = returned s
    ∧ s ≠ EmptyString
    ∧ run_task detail.do_expensive_work (ctor louder buffer cb) h
      = Running (invoked (mk_call cb
                   [JsNull;
                    if buffer
                    then Buffer_Copy (list_byte_of_string s) (String.length s)
                    else String_New s]) h).
Proof.
  destruct louder; eexists; (split; [reflexivity|]); (split; [discriminate|]);
    now apply run_task_returned.
Qed.

(** C1, as the spec words it, fails twice. A task whose computation throws
    something that is not a [std::exception] gets no call of its callback:
    the exception leaves [Execute] and the process stops. And a task whose
    computation returns the empty string ends with neither its error nor
    its result populated. *)
Lemma task_without_callback :
  let cb := JsObject (Callable 0) ∅ in
  let h := {| env := {| pending_exception := None; calls := [] |};
              work_queue := [] |} in
  run_task (λ _ _, thrown foreign_exception) (ctor false false cb) h
  = Stopped (uncaught_exception foreign_exception)
  ∧ (∀ h', run_task (λ _ _, thrown foreign_exception) (ctor false false cb) h
           ≠ Running h')
  ∧ ∃ w', Execute (λ _ _, returned EmptyString) (ctor false false cb)
          = returned w'
          ∧ error_populated w' = false
          ∧ result_populated w' = false.
Proof.
  cbv zeta. split; [reflexivity|]. split; [intros h'; discriminate|].
  eexists. split; [reflexivity|]. split; reflexivity.
Qed.

(** C1, amended. For every pair of flags (emphasize, asBytes), a submitted
    task whose computation returns or raises a [std::exception] ends in
    exactly one call of its callback. On success the call has a null error
    and a populated result made from the computed string (its text, or a
    buffer of its bytes); the task has no error and owns the string, its
    result populated unless the string is empty. On failure the call has a
    populated error, whose message is made from [what()], and a null
    result; the task has its error set and its result unpopulated. So the
    two outputs are never both populated, and one of them is unless the
    computation returned the empty string. A task whose computation throws
    anything else gets no call: the process stops. *)
Theorem callback_once_error_xor_result
    (work : string → bool → outcome string)
    (louder buffer : bool) (cb : Value) (h : host) :
  (∀ s, work "world" louder = returned s →
     ∃ w' v,
       Execute work (ctor louder buffer cb) = returned w'
       ∧ run_task work (ctor louder buffer cb) h
         = Running (invoked (mk_call cb [JsNull; v]) h)
       ∧ v = (if buffer
              then Buffer_Copy (list_byte_of_string s) (String.length s)
              else String_New s)
       ∧ populated v = true
       ∧ error w' = None
       ∧ result_ w' = Some s
       ∧ error_populated w' = false
       ∧ result_populated w' = negb (String.eqb s EmptyString))
  ∧ (∀ what, work "world" louder = thrown (std_exception what) →
     ∃ w' e,
       Execute work (ctor louder buffer cb) = returned w'
       ∧ run_task work (ctor louder buffer cb) h
         = Running (invoked (mk_call cb [e; JsNull]) h)
       ∧ e = Error_New what
       ∧ populated e = true
       ∧ As_Object e !! "message" = Some (String_New what)
       ∧ error w' = Some what
       ∧ result_ w' = Some EmptyString
       ∧ error_populated w' = true
       ∧ result_populated w' = false)
  ∧ (work "world" louder = thrown foreign_exception →
     run_task work (ctor louder buffer cb) h
     = Stopped (uncaught_exception foreign_exception)).
Proof.
  split; [|split].
  - intros s Hs.
    rewrite (Execute_ctor_returned work louder buffer cb s Hs).
    rewrite (run_task_returned work louder buffer cb h s Hs).
    eexists _, _. split; [reflexivity|]. split; [reflexivity|].
    split; [reflexivity|]. split; [destruct buffer; reflexivity|].
    repeat split.
  - intros what Hw.
    rewrite (Execute_ctor_caught work louder buffer cb what Hw).
    rewrite (run_task_caught work louder buffer cb h what Hw).
    eexists _, _. split; [reflexivity|]. split; [reflexivity|].
    split; [reflexivity|]. split; [reflexivity|].
    split; [apply lookup_singleton_eq|]. repeat split.
  - intros Hf. unfold run_task.
    now rewrite (Execute_escapes work (ctor louder buffer cb) Hf).
Qed.

Lemma callback_once_error_xor_result_witness :
  (∃ v, run_task detail.do_expensive_work
          (ctor true false (JsObject (Callable 0) ∅))
          {| env := {| pending_exception := None; calls := [] |};
             work_queue := [] |}
        = Running (invoked (mk_call (JsObject (Callable 0) ∅) [JsNull; v])
            {| env := {| pending_exception := None; calls := [] |};
               work_queue := [] |})
        ∧ populated v = true)
  ∧ (∃ e, run_task (λ _ _, thrown (std_exception "std::bad_alloc"))
          (ctor true false (JsObject (Callable 0) ∅))
          {| env := {| pending_exception := None; calls := [] |};
             work_queue := [] |}
        = Running (invoked (mk_call (JsObject (Callable 0) ∅) [e; JsNull])
            {| env := {| pending_exception := None; calls := [] |};
               work_queue := [] |})
        ∧ populated e = true).
Proof.
  split.
  - destruct (proj1 (callback_once_error_xor_result detail.do_expensive_work
        true false (JsObject (Callable 0) ∅)
        {| env := {| pending_exception := None; calls := [] |};
           work_queue := [] |}) _ eq_refl)
      as (w' & v & _ & Hrun & _ & Hpop & _).
    exists v. auto.
  - destruct (proj1 (proj2 (callback_once_error_xor_result
        (λ _ _, thrown (std_exception "std::bad_alloc"))
        true false (JsObject (Callable 0) ∅)
        {| env := {| pending_exception := None; calls := [] |};
           work_queue := [] |})) _ eq_refl)
      as (w' & e & _ & Hrun & _ & Hpop & _).
    exists e. auto.
Defined.

(** C2, as the spec words it, fails: the handler of [Execute] is typed.
    A computation that throws something not derived from [std::exception]
    is not caught: the exception leaves [Execute], no error is recorded,
    and the process stops instead of calling back. *)
Lemma foreign_exception_leaves_Execute :
  let work : string → bool → outcome string := λ _ _, thrown foreign_exception in
  let w := ctor false false (JsObject (Callable 0) ∅) in
  let h := {| env := {| pending_exception := None; calls := [] |};
              work_queue := [] |} in
  work "world" (louder_ w) = thrown foreign_exception
  ∧ Execute work w = thrown foreign_exception
  ∧ (∀ w', Execute work w ≠ returned w')
  ∧ run_task work w h = Stopped (uncaught_exception foreign_exception).
Proof. cbv zeta. repeat split; try reflexivity. intros w'. discriminate. Qed.

(** C2, amended. Every failure of the computation that is a
    [std::exception] is caught inside [Execute] and turned into the error
    of the task, which takes the text of [what()] and keeps its result as
    it was; no [std::exception] leaves [Execute]: an exception that does
    leave it is not derived from [std::exception] and is the one the
    computation threw. An exception of any other type is not caught:
    [Execute] lets it through and records no error. *)
Theorem Execute_catches_std_exception
    (work : string → bool → outcome string) (w : AsyncHelloWorker) :
  (∀ what, work "world" (louder_ w) = thrown (std_exception what) →
     ∃ w', Execute work w = returned w'
           ∧ error w' = Some what
           ∧ result_ w' = result_ w)
  ∧ (∀ e, Execute work w = thrown e →
       e = foreign_exception
       ∧ work "world" (louder_ w) = thrown foreign_exception)
  ∧ (work "world" (louder_ w) = thrown foreign_exception →
       Execute work w = thrown foreign_exception
       ∧ ∀ w', Execute work w ≠ returned w').
Proof.
  split; [|split].
  - intros what Hw. rewrite (Execute_caught work w what Hw).
    eexists. repeat split.
  - intros e. unfold Execute.
    destruct (work "world" (louder_ w)) as [s|[what|]]; cbn; intros He;
      inversion He; auto.
  - intros Hf. rewrite (Execute_escapes work w Hf).
    split; [reflexivity | intros w'; discriminate].
Qed.

Lemma Execute_catches_std_exception_witness :
  (∃ w', Execute (λ _ _, thrown (std_exception "std::bad_alloc"))
           (ctor false true (JsObject (Callable 0) ∅)) = returned w'
         ∧ error w' = Some "std::bad_alloc")
  ∧ Execute (λ _ _, thrown foreign_exception)
      (ctor false true (JsObject (Callable 0) ∅)) = thrown foreign_exception.
Proof.
  split.
  - destruct (proj1 (Execute_catches_std_exception
        (λ _ _, thrown (std_exception "std::bad_alloc"))
        (ctor false true (JsObject (Callable 0) ∅))) _ eq_refl)
      as (w' & Hex & Herr & _).
    exists w'. auto.
  - exact (proj1 (proj2 (proj2 (Execute_catches_std_exception
        (λ _ _, thrown foreign_exception)
        (ctor false true (JsObject (Callable 0) ∅)))) eq_refl)).
Defined.

(** C3. The result of a task is unpopulated (the empty string it is built
    with) from construction on: queueing does not touch it, and a failed
    [Execute] leaves it as it was. It is populated only by a successful
    [Execute]: if it is populated afterwards, the computation returned,
    the result is its output and no error is set; and a successful
    [Execute] does put the output there. *)
Theorem result_unpopulated_until_success
    (work : string → bool → outcome string)
    (louder buffer : bool) (cb : Value) :
  (result_ (ctor louder buffer cb) = Some EmptyString
   ∧ result_populated (ctor louder buffer cb) = false)
  ∧ (∀ h, work_queue (Queue (ctor louder buffer cb) h)
          = (work_queue h ++ [ctor louder buffer cb])%list)
  ∧ (∀ what, work "world" louder = thrown (std_exception what) →
       ∃ w', Execute work (ctor louder buffer cb) = returned w'
             ∧ result_ w' = Some EmptyString
             ∧ result_populated w' = false)
  ∧ (∀ w', Execute work (ctor louder buffer cb) = returned w' →
       result_populated w' = true →
       ∃ s, work "world" louder = returned s
            ∧ result_ w' = Some s
            ∧ error w' = None)
  ∧ (∀ s, work "world" louder = returned s →
       ∃ w', Execute work (ctor louder buffer cb) = returned w'
             ∧ result_ w' = Some s
             ∧ (s ≠ EmptyString → result_populated w' = true)).
Proof.
  split; [split; reflexivity|]. split; [reflexivity|]. split; [|split].
  - intros what Hw. rewrite (Execute_ctor_caught work louder buffer cb what Hw).
    eexists. repeat split.
  - intros w'. unfold Execute. cbn [louder_ ctor].
    destruct (work "world" louder) as [s|[what|]]; cbn; intros He Hpop;
      inversion He; subst; cbn in *; try discriminate.
    exists s. auto.
  - intros s Hs. rewrite (Execute_ctor_returned work louder buffer cb s Hs).
    eexists. split; [reflexivity|]. split; [reflexivity|].
    intros Hne. unfold result_populated. cbn.
    destruct (String.eqb_spec s EmptyString); [contradiction | reflexivity].
Qed.

Lemma result_unpopulated_until_success_witness :
  ∃ w', Execute detail.do_expensive_work
          (ctor false false (JsObject (Callable 0) ∅)) = returned w'
        ∧ result_ w' = Some "...threads are busy async bees...hello world"
        ∧ result_populated w' = true.
Proof.
  destruct (proj2 (proj2 (proj2 (proj2 (result_unpopulated_until_success
      detail.do_expensive_work false false (JsObject (Callable 0) ∅)))))
      "...threads are busy async bees...hello world" eq_refl)
    as (w' & Hex & Hres & Hpop).
  exists w'. split; [exact Hex|]. split; [exact Hres|].
  apply Hpop. discriminate.
Defined.

(** C7. For either value of emphasize and any successful execution, the
    buffer delivered when asBytes is set decodes to the very text delivered
    when it is not. Both are made from the computed string: the buffer
    holds its bytes, all of them, and the text is what the host reads from
    those bytes, which is the string itself when it is 7-bit. *)
Theorem buffer_decodes_to_text
    (work : string → bool → outcome string)
    (louder : bool) (cb : Value) (h : host) (s : string) :
  work "world" louder = returned s →
  ∃ buf text,
    run_task work (ctor louder true cb) h
    = Running (invoked (mk_call cb [JsNull; buf]) h)
    ∧ run_task work (ctor louder false cb) h
      = Running (invoked (mk_call cb [JsNull; JsString text]) h)
    ∧ Buffer_toString buf = Some text
    ∧ buf = Buffer_Copy (list_byte_of_string s) (String.length s)
    ∧ Buffer_bytes buf = Some (list_byte_of_string s)
    ∧ JsString text = String_New s
    ∧ text = utf8_text s
    ∧ (is_ascii s = true → text = s).
Proof.
  intros Hs.
  exists (Buffer_Copy (list_byte_of_string s) (String.length s)), (utf8_text s).
  rewrite !(run_task_returned work louder _ cb h s Hs).
  split; [reflexivity|]. split; [reflexivity|].
  split; [apply Buffer_toString_Copy|]. split; [reflexivity|].
  split; [apply Buffer_Copy_whole|]. split; [reflexivity|].
  split; [reflexivity | apply utf8_text_ascii].
Qed.

Lemma buffer_decodes_to_text_witness :
  ∃ buf,
    run_task detail.do_expensive_work
      (ctor true true (JsObject (Callable 0) ∅))
      {| env := {| pending_exception := None; calls := [] |};
         work_queue := [] |}
    = Running (invoked (mk_call (JsObject (Callable 0) ∅) [JsNull; buf])
        {| env := {| pending_exception := None; calls := [] |};
           work_queue := [] |})
    ∧ Buffer_toString buf
      = Some "...threads are busy async bees...hello world!!!!".
Proof.
  destruct (buffer_decodes_to_text detail.do_expensive_work true
      (JsObject (Callable 0) ∅)
      {| env := {| pending_exception := None; calls := [] |};
         work_queue := [] |}
      "...threads are busy async bees...hello world!!!!" eq_refl)
    as (buf & text & Hb & _ & Hdec & _ & _ & _ & _ & Hascii).
  exists buf. split; [exact Hb|].
  rewrite Hdec. f_equal. apply Hascii. vm_compute. reflexivity.
Defined.

(** ** From the call to the callback *)

(** A well-formed invocation on an idle host, then the queue run with a
    computation that returns: the callback is called exactly once, with a
    null error and the result. *)
Lemma helloAsync_then_run_queue
    (work : string → bool → outcome string)
    (info : CallbackInfo) (e : Env) :
  malformed info = false →
  (∀ louder, ∃ s, work "world" louder = returned s) →
  ∃ c,
    run_queue work (snd (helloAsync info {| env := e; work_queue := [] |}))
    = Running (invoked c {| env := e; work_queue := [] |})
    ∧ callee c = arg info 1
    ∧ populated (error_slot c) = false
    ∧ populated (result_slot c) = true.
Proof.
  intros Hok Hret.
  destruct (helloAsync_well_formed info {| env := e; work_queue := [] |} Hok)
    as (l & b & Hrun & _).
  rewrite Hrun. destruct (Hret l) as [s Hs].
  unfold run_queue. cbn.
  rewrite (run_task_returned work l b (arg info 1) _ s Hs).
  eexists. split; [reflexivity|]. repeat split. destruct b; reflexivity.
Qed.

(** The scenarios of the documentation, run on the model. *)
Example louder_text :
  run_task detail.do_expensive_work
    (ctor true false (JsObject (Callable 0) ∅))
    {| env := {| pending_exception := None; calls := [] |}; work_queue := [] |}
  = Running
      {| env := {| pending_exception := None;
                   calls := [mk_call (JsObject (Callable 0) ∅)
                     [JsNull;
                      JsString "...threads are busy async bees...hello world!!!!"]] |};
         work_queue := [] |}.
Proof. reflexivity. Qed.

Example plain_text :
  run_task detail.do_expensive_work
    (ctor false false (JsObject (Callable 0) ∅))
    {| env := {| pending_exception := None; calls := [] |}; work_queue := [] |}
  = Running
      {| env := {| pending_exception := None;
                   calls := [mk_call (JsObject (Callable 0) ∅)
                     [JsNull;
                      JsString "...threads are busy async bees...hello world"]] |};
         work_queue := [] |}.
Proof. reflexivity. Qed.


(** ** More on the entry point *)

(** The field [louder] is checked first and is not coerced. When it is
    present with a value that is not a boolean (a number, a string, null,
    even undefined: the field being there is what counts), [helloAsync]
    returns through [utils::CallbackError] with the message for [louder],
    whatever the field [buffer] holds, and queues nothing. *)
Theorem louder_checked_before_buffer
    (info : CallbackInfo) (h : host) (v : Value) :
  IsFunction (arg info 1) = true →
  IsObject (arg info 0) = true →
  As_Object (arg info 0) !! "louder" = Some v →
  IsBoolean v = false →
  helloAsync info h
  = (fst (utils.CallbackError "option 'louder' must be a boolean" info (env h)),
     {| env := snd (utils.CallbackError "option 'louder' must be a boolean"
                      info (env h));
        work_queue := work_queue h |}).
Proof.
  intros Hf Ho Hl Hv. rewrite helloAsync_cases, Hf, Ho.
  unfold read_flag. rewrite Hl.
  destruct v; try discriminate; reflexivity.
Qed.

Lemma louder_checked_before_buffer_witness :
  work_queue (snd (helloAsync
    [JsObject Ordinary {[ "louder" := JsUndefined; "buffer" := JsNumber 3 ]};
     JsObject (Callable 0) ∅]
    {| env := {| pending_exception := None; calls := [] |};
       work_queue := [] |})) = [].
Proof.
  assert (Hl : As_Object (arg
      [JsObject Ordinary {[ "louder" := JsUndefined; "buffer" := JsNumber 3 ]};
       JsObject (Callable 0) ∅] 0) !! "louder" = Some JsUndefined)
    by (vm_compute; reflexivity).
  rewrite (louder_checked_before_buffer
    [JsObject Ordinary {[ "louder" := JsUndefined; "buffer" := JsNumber 3 ]};
     JsObject (Callable 0) ∅]
    {| env := {| pending_exception := None; calls := [] |}; work_queue := [] |}
    JsUndefined eq_refl eq_refl Hl eq_refl).
  reflexivity.
Defined.

(** The field [buffer] is checked once [louder] has passed (absent, or a
    boolean). When [buffer] is then present with a value that is not a
    boolean, [helloAsync] returns through [utils::CallbackError] with the
    message for [buffer]: the valid [louder] has no effect, and nothing is
    queued. *)
Theorem buffer_checked_after_louder
    (info : CallbackInfo) (h : host) (v : Value) :
  IsFunction (arg info 1) = true →
  IsObject (arg info 0) = true →
  (As_Object (arg info 0) !! "louder" = None
   ∨ ∃ b, As_Object (arg info 0) !! "louder" = Some (JsBoolean b)) →
  As_Object (arg info 0) !! "buffer" = Some v →
  IsBoolean v = false →
  helloAsync info h
  = (fst (utils.CallbackError "option 'buffer' must be a boolean" info (env h)),
     {| env := snd (utils.CallbackError "option 'buffer' must be a boolean"
                      info (env h));
        work_queue := work_queue h |}).
Proof.
  intros Hf Ho Hl Hb Hv. rewrite helloAsync_cases, Hf, Ho.
  unfold read_flag. rewrite Hb.
  destruct Hl as [-> | [b ->]]; destruct v; try discriminate; reflexivity.
Qed.

Lemma buffer_checked_after_louder_witness :
  work_queue (snd (helloAsync
    [JsObject Ordinary {[ "louder" := JsBoolean true; "buffer" := JsString "yes" ]};
     JsObject (Callable 0) ∅]
    {| env := {| pending_exception := None; calls := [] |};
       work_queue := [] |})) = [].
Proof.
  assert (Hl : As_Object (arg
      [JsObject Ordinary {[ "louder" := JsBoolean true; "buffer" := JsString "yes" ]};
       JsObject (Callable 0) ∅] 0) !! "louder" = Some (JsBoolean true))
    by (vm_compute; reflexivity).
  assert (Hb : As_Object (arg
      [JsObject Ordinary {[ "louder" := JsBoolean true; "buffer" := JsString "yes" ]};
       JsObject (Callable 0) ∅] 0) !! "buffer" = Some (JsString "yes"))
    by (vm_compute; reflexivity).
  rewrite (buffer_checked_after_louder
    [JsObject Ordinary {[ "louder" := JsBoolean true; "buffer" := JsString "yes" ]};
     JsObject (Callable 0) ∅]
    {| env := {| pending_exception := None; calls := [] |}; work_queue := [] |}
    (JsString "yes") eq_refl eq_refl (or_intror (ex_intro _ true Hl)) Hb eq_refl).
  reflexivity.
Defined.

(** The flags are read literally: the queued task is emphatic exactly when
    [louder] is the boolean [true], and delivers bytes exactly when
    [buffer] is the boolean [true]. *)
Theorem flag_set_iff_field_true (info : CallbackInfo) (h : host) :
  malformed info = false →
  ∃ w,
    work_queue (snd (helloAsync info h)) = (work_queue h ++ [w])%list
    ∧ (louder_ w = true
       ↔ As_Object (arg info 0) !! "louder" = Some (JsBoolean true))
    ∧ (buffer_ w = true
       ↔ As_Object (arg info 0) !! "buffer" = Some (JsBoolean true)).
Proof.
  intros Hok.
  destruct (helloAsync_well_formed info h Hok) as (l & b & Hrun & Hl & Hb).
  rewrite Hrun. exists (ctor l b (arg info 1)). split; [reflexivity|].
  unfold read_flag in Hl, Hb. cbn [louder_ buffer_ ctor].
  split.
  - destruct (As_Object (arg info 0) !! "louder") as [[]|]; try discriminate;
      inversion Hl; subst; split; intros H; try discriminate;
      try reflexivity; inversion H; reflexivity.
  - destruct (As_Object (arg info 0) !! "buffer") as [[]|]; try discriminate;
      inversion Hb; subst; split; intros H; try discriminate;
      try reflexivity; inversion H; reflexivity.
Qed.

Lemma flag_set_iff_field_true_witness :
  ∃ w,
    work_queue (snd (helloAsync
      [JsObject Ordinary {[ "louder" := JsBoolean false; "buffer" := JsBoolean true ]};
       JsObject (Callable 0) ∅]
      {| env := {| pending_exception := None; calls := [] |};
         work_queue := [] |})) = [w]
    ∧ louder_ w ≠ true ∧ buffer_ w = true.
Proof.
  assert (Hok : malformed
      [JsObject Ordinary {[ "louder" := JsBoolean false; "buffer" := JsBoolean true ]};
       JsObject (Callable 0) ∅] = false) by (vm_compute; reflexivity).
  destruct (flag_set_iff_field_true _
    {| env := {| pending_exception := None; calls := [] |}; work_queue := [] |}
    Hok) as (w & Hq & Hl & Hb).
  exists w. split; [exact Hq|]. split.
  - intros Ht. apply Hl in Ht. vm_compute in Ht. discriminate.
  - apply Hb. vm_compute. reflexivity.
Defined.

(** Whatever it is called with, [helloAsync] does exactly one thing, and
    only adds to what the host holds: it throws the TypeError (no call,
    nothing queued), or it makes one call (nothing thrown, nothing
    queued), or it queues one task (nothing thrown, no call). Calls made
    and tasks queued before are kept, in order. *)
Theorem helloAsync_one_effect (info : CallbackInfo) (h : host) :
  ∃ cs ws,
    calls (env (snd (helloAsync info h))) = (calls (env h) ++ cs)%list
    ∧ work_queue (snd (helloAsync info h)) = (work_queue h ++ ws)%list
    ∧ ((cs = [] ∧ ws = []
        ∧ pending_exception (env (snd (helloAsync info h)))
          = Some (TypeError_New "second arg 'callback' must be a function"))
       ∨ (∃ c, cs = [c] ∧ ws = []
          ∧ pending_exception (env (snd (helloAsync info h)))
            = pending_exception (env h))
       ∨ (∃ w, cs = [] ∧ ws = [w]
          ∧ pending_exception (env (snd (helloAsync info h)))
            = pending_exception (env h))).
Proof.
  rewrite helloAsync_cases.
  assert (Hcall : ∀ message,
    ∃ cs ws,
      calls (env (snd (callback_error message info h))) = (calls (env h) ++ cs)%list
      ∧ work_queue (snd (callback_error message info h)) = (work_queue h ++ ws)%list
      ∧ ((cs = [] ∧ ws = []
          ∧ pending_exception (env (snd (callback_error message info h)))
            = Some (TypeError_New "second arg 'callback' must be a function"))
         ∨ (∃ c, cs = [c] ∧ ws = []
            ∧ pending_exception (env (snd (callback_error message info h)))
              = pending_exception (env h))
         ∨ (∃ w, cs = [] ∧ ws = [w]
            ∧ pending_exception (env (snd (callback_error message info h)))
              = pending_exception (env h)))).
  { intros message. rewrite callback_error_invoked. eexists [_], []. cbn.
    split; [reflexivity|]. split; [now rewrite app_nil_r|].
    right. left. eexists. repeat split. }
  destruct (IsFunction (arg info 1)).
  - destruct (IsObject (arg info 0)); [|apply Hcall].
    destruct (read_flag _ "louder") as [l|]; [|apply Hcall].
    destruct (read_flag _ "buffer") as [b|]; [|apply Hcall].
    eexists [], [_]. cbn. split; [now rewrite app_nil_r|].
    split; [reflexivity|]. right. right. eexists. repeat split.
  - exists [], []. cbn. rewrite !app_nil_r. repeat split. left. repeat split.
Qed.

(** With fewer than two arguments there is no callback to report to: a
    missing argument reads as undefined, so [helloAsync] throws the
    TypeError and returns null, whatever the one argument is. *)
Theorem missing_callback_throws (info : CallbackInfo) (h : host) :
  length info < 2 →
  helloAsync info h
  = (Val JsNull,
     {| env := {| pending_exception :=
                    Some (TypeError_New "second arg 'callback' must be a function");
                  calls := calls (env h) |};
        work_queue := work_queue h |}).
Proof.
  intros Hlen. rewrite helloAsync_cases.
  assert (Harg : arg info 1 = JsUndefined).
  { unfold arg, CallbackInfo in *.
    destruct info as [|a [|b rest]]; cbn in *; (reflexivity || lia). }
  rewrite Harg. reflexivity.
Qed.

Lemma missing_callback_throws_witness :
  fst (helloAsync [JsObject Ordinary {[ "louder" := JsBoolean true ]}]
         {| env := {| pending_exception := None; calls := [] |};
            work_queue := [] |}) = Val JsNull.
Proof.
  assert (Hlen : length [JsObject Ordinary {[ "louder" := JsBoolean true ]}] < 2)
    by (cbn; lia).
  rewrite (missing_callback_throws _
    {| env := {| pending_exception := None; calls := [] |}; work_queue := [] |}
    Hlen).
  reflexivity.
Defined.

(** Two well-formed invocations in a row queue two tasks, the first call's
    task ahead of the second's, each with the callback and the flags of its
    own invocation; nothing else in the host changes. *)
Theorem two_invocations_queue_in_order (info1 info2 : CallbackInfo) (h : host) :
  malformed info1 = false →
  malformed info2 = false →
  ∃ l1 b1 l2 b2,
    snd (helloAsync info2 (snd (helloAsync info1 h)))
    = {| env := env h;
         work_queue := work_queue h ++ [ctor l1 b1 (arg info1 1);
                                        ctor l2 b2 (arg info2 1)] |}
    ∧ read_flag (As_Object (arg info1 0)) "louder" = Some l1
    ∧ read_flag (As_Object (arg info1 0)) "buffer" = Some b1
    ∧ read_flag (As_Object (arg info2 0)) "louder" = Some l2
    ∧ read_flag (As_Object (arg info2 0)) "buffer" = Some b2.
Proof.
  intros H1 H2.
  destruct (helloAsync_well_formed info1 h H1) as (l1 & b1 & Hr1 & Hl1 & Hb1).
  rewrite Hr1. cbn [snd].
  destruct (helloAsync_well_formed info2 (Queue (ctor l1 b1 (arg info1 1)) h) H2)
    as (l2 & b2 & Hr2 & Hl2 & Hb2).
  rewrite Hr2. exists l1, b1, l2, b2. split; [|auto].
  unfold Queue. cbn. now rewrite <- app_assoc.
Qed.

Lemma two_invocations_queue_in_order_witness :
  map louder_ (work_queue (snd (helloAsync
    [JsObject Ordinary ∅; JsObject (Callable 1) ∅]
    (snd (helloAsync
      [JsObject Ordinary {[ "louder" := JsBoolean true ]}; JsObject (Callable 0) ∅]
      {| env := {| pending_exception := None; calls := [] |};
         work_queue := [] |})))))
  = [true; false].
Proof.
  assert (H1 : malformed
      [JsObject Ordinary {[ "louder" := JsBoolean true ]}; JsObject (Callable 0) ∅]
      = false) by (vm_compute; reflexivity).
  assert (H2 : malformed [JsObject Ordinary ∅; JsObject (Callable 1) ∅] = false)
    by (vm_compute; reflexivity).
  destruct (two_invocations_queue_in_order _ _
    {| env := {| pending_exception := None; calls := [] |}; work_queue := [] |}
    H1 H2) as (l1 & b1 & l2 & b2 & Hq & Hl1 & _ & Hl2 & _).
  rewrite Hq. vm_compute in Hl1, Hl2.
  inversion Hl1; inversion Hl2; subst. reflexivity.
Defined.

(** ** More on the worker *)

(** [Execute] assigns, it does not accumulate: running it again on the
    task it has finished gives the same task. *)
Theorem Execute_rerun
    (work : string → bool → outcome string) (w w' : AsyncHelloWorker) :
  Execute work w = returned w' →
  Execute work w' = returned w'.
Proof.
  unfold Execute.
  destruct (work "world" (louder_ w)) as [s|[what|]] eqn:Hw; cbn;
    intros H; inversion H; subst; cbn; rewrite Hw; reflexivity.
Qed.

Lemma Execute_rerun_witness :
  ∃ w',
    Execute detail.do_expensive_work
      (ctor true false (JsObject (Callable 0) ∅)) = returned w'
    ∧ Execute detail.do_expensive_work w' = returned w'.
Proof.
  eexists. split; [reflexivity|].
  exact (Execute_rerun detail.do_expensive_work
    (ctor true false (JsObject (Callable 0) ∅)) _ eq_refl).
Defined.

(** [Execute] keeps the inputs of the task (its callback and both flags)
    and writes one output only: the result when the computation returns,
    leaving the error as it was (an error set earlier is not cleared), or
    the error when a [std::exception] is caught, leaving the result as it
    was. *)
Theorem Execute_frame
    (work : string → bool → outcome string) (w w' : AsyncHelloWorker) :
  Execute work w = returned w' →
  callback w' = callback w
  ∧ louder_ w' = louder_ w
  ∧ buffer_ w' = buffer_ w
  ∧ ((∃ s, work "world" (louder_ w) = returned s
           ∧ result_ w' = Some s ∧ error w' = error w)
     ∨ (∃ what, work "world" (louder_ w) = thrown (std_exception what)
                ∧ error w' = Some what ∧ result_ w' = result_ w)).
Proof.
  unfold Execute.
  destruct (work "world" (louder_ w)) as [s|[what|]]; cbn;
    intros H; inversion H; subst; cbn; repeat split; eauto.
Qed.

Lemma Execute_frame_witness :
  ∃ w',
    Execute detail.do_expensive_work
      {| callback := JsObject (Callable 0) ∅; error := Some "earlier";
         result_ := Some "stale"; louder_ := false; buffer_ := true |}
    = returned w'
    ∧ error w' = Some "earlier"
    ∧ result_ w' = Some "...threads are busy async bees...hello world".
Proof.
  eexists. split; [reflexivity|].
  destruct (Execute_frame detail.do_expensive_work
    {| callback := JsObject (Callable 0) ∅; error := Some "earlier";
       result_ := Some "stale"; louder_ := false; buffer_ := true |}
    _ eq_refl) as (_ & _ & _ & [(s & Hs & Hres & Herr) | (what & Hw & _)]).
  - split; [exact Herr|]. rewrite Hres. inversion Hs. reflexivity.
  - discriminate Hw.
Defined.



(** A buffer handed back as the options is refused: its property [buffer]
    is there and is not a boolean. *)
Example buffer_as_options :
  helloAsync
    [Buffer_Copy (list_byte_of_string "hi") 2; JsObject (Callable 0) ∅]
    {| env := {| pending_exception := None; calls := [] |}; work_queue := [] |}
  = callback_error "option 'buffer' must be a boolean"
      [Buffer_Copy (list_byte_of_string "hi") 2; JsObject (Callable 0) ∅]
      {| env := {| pending_exception := None; calls := [] |}; work_queue := [] |}.
Proof. rewrite helloAsync_cases. reflexivity. Qed.
